(** * Verification of src/variational_autoencoder/VAE.py

    Shallow embedding of the convolutional VAE script: the frame selection
    of [draw_gif], the data preparation of [prepare_data], the shape
    contract of the [CVAE] networks, the numeric core ([reparameterize],
    [log_normal_pdf], [compute_loss]) over the reals, and the epoch loop of
    the [__main__] block as a trace of events. *)

From Stdlib Require Import List ZArith Lia Sorted Permutation QArith Reals Lra String.
Import ListNotations.
Open Scope Z_scope.

(* ------------------------------------------------------------------ *)
(** ** Frame selection of [draw_gif] *)
Module Gif.

(** [round(2 * (i ** 0.5))].  The value [2*sqrt i] is never a half-integer
    ([(k + 1/2)^2 = 4 i] has no integer solution) and the double nearest to
    [sqrt i] stays far from one for file counts of a directory, so Python's
    rounding returns the integer [k] nearest to [sqrt (4 i)]: with
    [s = isqrt (4 i)], it is [s + 1] exactly when [4 i > s^2 + s]. *)
Definition round_frame (i : nat) : Z :=
  let n := 4 * Z.of_nat i in
  let s := Z.sqrt n in
  if s * s + s <? n then s + 1 else s.

(** The [for i, filename in enumerate(filenames)] loop.  [last] holds
    [round(last)] (the rounding of the last selected [frame]; initially
    [round(-1) = -1]), [bound] the value of the Python variable [filename]
    after the iterations so far ([None]: not yet bound).  The first
    component lists the images handed to [writer.append_data]. *)
Fixpoint select_loop {A : Type} (i : nat) (last : Z) (bound : option A)
    (filenames : list A) : list A * option A :=
  match filenames with
  | [] => ([], bound)
  | filename :: rest =>
      let frame := round_frame i in
      if last <? frame then
        let '(w, b) := select_loop (S i) frame (Some filename) rest in
        (filename :: w, b)
      else select_loop (S i) last (Some filename) rest
  end.

(** Outcome of [draw_gif]: the frames written, or the [UnboundLocalError]
    raised by the post-loop [imageio.imread(filename)] when the loop never
    bound [filename]; nothing in the script catches it. *)
Inductive outcome (A : Type) :=
| Written (frames : list A)
| UnboundLocalError.
Arguments Written {A} frames.
Arguments UnboundLocalError {A}.

(** [draw_gif] applied to the sorted result of [glob('image*.png')]. *)
Definition draw_gif {A : Type} (filenames : list A) : outcome A :=
  let '(w, b) := select_loop 0 (-1) None filenames in
  match b with
  | None => UnboundLocalError
  | Some filename => Written (w ++ [filename])
  end.

(** The indices selected by the loop on the files [0 .. N-1]. *)
Definition selected_indices (N : nat) : list nat :=
  fst (select_loop 0 (-1) None (seq 0 N)).

End Gif.

(* ------------------------------------------------------------------ *)
(** ** [prepare_data] *)
Module Data.
Local Open Scope Q_scope.

(** A raw MNIST image: 28 rows of 28 [uint8] intensities. *)
Definition raw_image := list (list Z).

(** A prepared image of shape [(28, 28, 1)]: rows, columns, one channel.
    The [float32] values are modelled by rationals: for the intensities
    [p / 255] of the script the float rounding never crosses [0.5]
    ([127/255] and [128/255] are both far from it). *)
Definition image := list (list (list Q)).

(** [images.reshape(n, 28, 28, 1).astype('float32')]. *)
Definition reshape (imgs : list raw_image) : list image :=
  map (map (map (fun p => [inject_Z p]))) imgs.

(** Elementwise update of every pixel of an image array. *)
Definition map_pixels (f : Q -> Q) (imgs : list image) : list image :=
  map (map (map (map f))) imgs.

(** [images /= 255.] *)
Definition normalize (imgs : list image) : list image :=
  map_pixels (fun v => v / 255) imgs.

(** [v < .5] on a (non-NaN) value. *)
Definition lt_half (v : Q) : bool := negb (Qle_bool (1 # 2) v).

(** [images[images >= .5] = 1.] followed by [images[images < .5] = 0.]:
    the second mask is taken on the array the first assignment updated. *)
Definition binarize (imgs : list image) : list image :=
  let imgs1 := map_pixels (fun v => if Qle_bool (1 # 2) v then 1 else v) imgs in
  map_pixels (fun v => if lt_half v then 0 else v) imgs1.

(** [list.pop(k)] for the shuffle buffer: the element at [k] and the rest. *)
Fixpoint remove_at {A : Type} (k : nat) (l : list A) : option (A * list A) :=
  match l, k with
  | [], _ => None
  | x :: r, O => Some (x, r)
  | x :: r, S k' =>
      match remove_at k' r with
      | Some (y, r') => Some (y, x :: r')
      | None => None
      end
  end.

(** [Dataset.shuffle(buffer)] with a buffer holding the whole dataset: each
    output element is drawn from the remaining ones; the random draws are
    the explicit [draws]. *)
Fixpoint shuffle {A : Type} (draws : list nat) (l : list A) : list A :=
  match draws with
  | [] => l
  | d :: ds =>
      match remove_at (Nat.modulo d (List.length l)) l with
      | Some (x, rest) => x :: shuffle ds rest
      | None => l
      end
  end.

(** [Dataset.batch(n)]: consecutive groups of [n], the last one shorter. *)
Fixpoint batch_fuel {A : Type} (fuel n : nat) (l : list A) : list (list A) :=
  match fuel with
  | O => []
  | S fuel' =>
      match l with
      | [] => []
      | _ => firstn n l :: batch_fuel fuel' n (skipn n l)
      end
  end.

Definition batch {A : Type} (n : nat) (l : list A) : list (list A) :=
  batch_fuel (List.length l) n l.

Definition BATCH_SIZE : nat := 128.

(** The binarized train and test arrays of [prepare_data]. *)
Definition prepare_images (raw : list raw_image) : list image :=
  binarize (normalize (reshape raw)).

(** [prepare_data]: the train and test streams of shuffled mini-batches. *)
Definition prepare_data (train_raw test_raw : list raw_image)
    (train_draws test_draws : list nat) : list (list image) * list (list image) :=
  let train_images := prepare_images train_raw in
  let test_images := prepare_images test_raw in
  (batch BATCH_SIZE (shuffle train_draws train_images),
   batch BATCH_SIZE (shuffle test_draws test_images)).

End Data.

(* ------------------------------------------------------------------ *)
(** ** Shapes through the [CVAE] networks *)
Module Shapes.

(** A tensor shape, batch axis first. *)
Definition shape := list nat.

Fixpoint shape_eqb (s t : shape) : bool :=
  match s, t with
  | [], [] => true
  | a :: s', b :: t' => Nat.eqb a b && shape_eqb s' t'
  | _, _ => false
  end.

Definition prod (s : shape) : nat := fold_right Nat.mul 1%nat s.

(** The Keras layers of [CVAE.__init__], with the shape rules Keras applies;
    [None] is the shape error Keras raises. *)
Inductive layer :=
| InputLayer (input_shape : shape)
| Conv2D (filters kernel_size stride : nat)           (* padding 'valid' *)
| Flatten
| Dense (units : nat)
| Reshape (target_shape : shape)
| Conv2DTranspose (filters kernel_size stride : nat). (* padding 'SAME' *)

Definition layer_shape (l : layer) (s : shape) : option shape :=
  match l, s with
  | InputLayer sh, _ :: rest => if shape_eqb rest sh then Some s else None
  | Conv2D f k st, [b; h; w; _] =>
      if Nat.leb k h && Nat.leb k w
      then Some [b; Nat.div (h - k) st + 1; Nat.div (w - k) st + 1; f]%nat
      else None
  | Flatten, b :: rest => Some [b; prod rest]
  | Dense u, _ :: _ => Some (removelast s ++ [u])
  | Reshape t, b :: rest => if Nat.eqb (prod rest) (prod t) then Some (b :: t) else None
  | Conv2DTranspose f _ st, [b; h; w; _] => Some [b; h * st; w * st; f]%nat
  | _, _ => None
  end.

(** [tf.keras.Sequential]: the layers applied in order. *)
Fixpoint sequential (ls : list layer) (s : shape) : option shape :=
  match ls with
  | [] => Some s
  | l :: ls' =>
      match layer_shape l s with
      | Some s' => sequential ls' s'
      | None => None
      end
  end.

Definition inference_net (latent_dim : nat) : list layer :=
  [InputLayer [28; 28; 1]; Conv2D 32 3 2; Conv2D 64 3 2; Flatten;
   Dense (latent_dim + latent_dim)]%nat.

Definition generative_net (latent_dim : nat) : list layer :=
  [InputLayer [latent_dim]; Dense (7 * 7 * 32); Reshape [7; 7; 32];
   Conv2DTranspose 64 3 2; Conv2DTranspose 32 3 2; Conv2DTranspose 1 3 1]%nat.

(** [tf.split(t, num_or_size_splits=2, axis=1)] on a rank-2 tensor; an
    axis of odd size raises. *)
Definition split2 (s : shape) : option (shape * shape) :=
  match s with
  | [b; d] => if Nat.even d then Some ([b; Nat.div d 2], [b; Nat.div d 2]) else None
  | _ => None
  end.

(** [CVAE.encode]: shapes of [(mean, logvar)]. *)
Definition encode (latent_dim : nat) (x : shape) : option (shape * shape) :=
  match sequential (inference_net latent_dim) x with
  | Some h => split2 h
  | None => None
  end.

(** [CVAE.reparameterize]: [eps] takes [mean.shape]; the elementwise
    [eps * tf.exp(logvar * 0.5) + mean] needs [logvar] of that shape. *)
Definition reparameterize (mean logvar : shape) : option shape :=
  let eps := mean in
  if shape_eqb logvar eps then Some mean else None.

(** [CVAE.decode]: shape of the logits. *)
Definition decode (latent_dim : nat) (z : shape) : option shape :=
  sequential (generative_net latent_dim) z.

(** encode, reparameterize, decode in a row, as [compute_loss] chains them. *)
Definition forward (latent_dim : nat) (x : shape) : option shape :=
  match encode latent_dim x with
  | Some (mean, logvar) =>
      match reparameterize mean logvar with
      | Some z => decode latent_dim z
      | None => None
      end
  | None => None
  end.

End Shapes.

(* ------------------------------------------------------------------ *)
(** ** The epoch loop of [__main__] *)
Module Training.
Local Open Scope R_scope.

(** [tf.reduce_mean] / [tf.keras.metrics.Mean().result()] of a list. *)
Definition mean (l : list R) : R := fold_right Rplus 0 l / INR (List.length l).

(** Decimal digits of [n], most significant first. *)
Fixpoint decimal_fuel (fuel n : nat) (acc : string) : string :=
  match fuel with
  | O => acc
  | S fuel' =>
      let acc' := String (Ascii.ascii_of_nat (48 + Nat.modulo n 10)) acc in
      if Nat.ltb n 10 then acc' else decimal_fuel fuel' (Nat.div n 10) acc'
  end.

Definition decimal (n : nat) : string := decimal_fuel (S n) n EmptyString.

(** ['{:04d}'.format(n)]: zero-padded to width 4. *)
Definition format_04d (n : nat) : string :=
  let d := decimal n in
  append (concat EmptyString (repeat "0"%string (4 - String.length d))) d.

(** The file written by [generate_and_save_images(model, epoch, _)]. *)
Definition image_file (epoch : nat) : string :=
  append "image_at_epoch_" (append (format_04d epoch) ".png").

Definition epochs : nat := 100.

Section Loop.
(** The model state, one epoch of [train_step] over the training stream
    (its shuffling and noise draws folded in), the losses [compute_loss]
    gives on the test batches, the initial [CVAE(latent_dim)] and the
    pre-drawn [random_vector_for_generation]. *)
Variable Model Latents : Type.
Variable train_epoch : nat -> Model -> Model.
Variable test_losses : Model -> list R.
Variable model0 : Model.
Variable random_vector_for_generation : Latents.

(** Observable steps of the loop. *)
Inductive event :=
| Trained (epoch : nat)
| Evaluated (epoch : nat) (elbo : R)
| Saved (epoch : nat) (file : string) (test_input : Latents).

(** [for epoch in range(...)]: the body, then the rest of the epochs. *)
Fixpoint run (es : list nat) (model : Model) : list event :=
  match es with
  | [] => []
  | epoch :: es' =>
      let model' := train_epoch epoch model in
      Trained epoch ::
        ((if Nat.eqb (Nat.modulo epoch 10) 0
          then [Evaluated epoch (- mean (test_losses model'));
                Saved epoch (image_file epoch) random_vector_for_generation]
          else []) ++ run es' model')
  end.

Definition main : list event := run (seq 0 epochs) model0.

(** The model after training epochs [0 .. e]. *)
Definition model_after (e : nat) : Model :=
  fold_left (fun m k => train_epoch k m) (seq 0 (S e)) model0.

Definition trained_epochs (tr : list event) : list nat :=
  flat_map (fun ev => match ev with Trained e => [e] | _ => [] end) tr.

(** The files written by [plt.savefig] along a trace, in order. *)
Definition saved_files (tr : list event) : list string :=
  flat_map (fun ev => match ev with Saved _ f _ => [f] | _ => [] end) tr.

End Loop.

Arguments Trained {Latents} epoch.
Arguments Evaluated {Latents} epoch elbo.
Arguments Saved {Latents} epoch file test_input.

(** Python's [sorted] on file names (code-point order, stable): insertion
    sort with [String.leb]. *)
Fixpoint insert_name (s : string) (l : list string) : list string :=
  match l with
  | [] => [s]
  | t :: l' => if String.leb s t then s :: l else t :: insert_name s l'
  end.

Definition sorted_names (l : list string) : list string := fold_right insert_name [] l.

End Training.

(* ------------------------------------------------------------------ *)
(** ** The numeric core: [reparameterize], [log_normal_pdf], [compute_loss]

    Tensors are nested lists of reals: a batch of latent vectors is a
    [matrix] (batch axis first), a batch of images a list of [image]s of
    shape [(28, 28, 1)].  Elementwise TensorFlow operations on operands of
    one shape are [zip_with]. *)
Module Vae.
Local Open Scope R_scope.

Definition matrix := list (list R).
Definition image := list (list (list R)).

Fixpoint zip_with {A B C : Type} (f : A -> B -> C) (l1 : list A) (l2 : list B) : list C :=
  match l1, l2 with
  | a :: l1', b :: l2' => f a b :: zip_with f l1' l2'
  | _, _ => []
  end.

(** Elementwise binary operation on two matrices. *)
Definition ew2 (f : R -> R -> R) (a b : matrix) : matrix := zip_with (zip_with f) a b.

Definition sum_list (l : list R) : R := fold_right Rplus 0 l.

(** [tf.reduce_sum(t, axis=1)] on a matrix. *)
Definition reduce_sum_axis1 (m : matrix) : list R := map sum_list m.

(** [tf.reduce_mean] of a vector. *)
Definition reduce_mean (l : list R) : R := sum_list l / INR (List.length l).

(** [CVAE.reparameterize]: [eps] is the standard normal draw of shape
    [mean.shape]; [eps * tf.exp(logvar * 0.5) + mean]. *)
Definition reparameterize (eps mean logvar : matrix) : matrix :=
  ew2 Rplus (ew2 Rmult eps (map (map (fun lv => exp (lv * 0.5))) logvar)) mean.

(** An argument of [log_normal_pdf]: the Python scalar [0.] broadcast
    against [sample], or a tensor. *)
Inductive operand :=
| Scalar (r : R)
| Tensor (m : matrix).

Definition broadcast (o : operand) (like : matrix) : matrix :=
  match o with
  | Scalar r => map (map (fun _ => r)) like
  | Tensor m => m
  end.

(** Two matrices with the same row lengths. *)
Definition same_rows (a b : matrix) : Prop :=
  map (@List.length R) a = map (@List.length R) b.

(** An operand broadcast against [sample] without a shape error. *)
Definition fits (o : operand) (sample : matrix) : Prop :=
  match o with
  | Scalar _ => True
  | Tensor m => same_rows m sample
  end.

(** The entry [(b, j)] an operand contributes. *)
Definition operand_at (o : operand) (b j : nat) : R :=
  match o with
  | Scalar r => r
  | Tensor m => nth j (nth b m []) 0
  end.

(** [log_normal_pdf(sample, mean, logvar, raxis=1)]. *)
Definition log_normal_pdf (sample : matrix) (mean logvar : operand) : list R :=
  let log2pi := ln (2 * PI) in
  let diff := ew2 Rminus sample (broadcast mean sample) in
  reduce_sum_axis1
    (ew2 (fun d lv => -0.5 * (d ^ 2 * exp (- lv) + lv + log2pi))
         diff (broadcast logvar sample)).

(** The two networks of a [CVAE], as functions of a batch. *)
Record CVAE := {
  inference_net : list image -> matrix;
  generative_net : matrix -> list image
}.

(** [CVAE.encode]: [tf.split(inference_net(x), 2, axis=1)]. *)
Definition encode (model : CVAE) (x : list image) : matrix * matrix :=
  let h := inference_net model x in
  (map (fun r => firstn (Nat.div (List.length r) 2) r) h,
   map (fun r => skipn (Nat.div (List.length r) 2) r) h).

(** [CVAE.decode(z)] with [apply_sigmoid=False]: the logits. *)
Definition decode (model : CVAE) (z : matrix) : list image := generative_net model z.

(** [tf.nn.sigmoid_cross_entropy_with_logits] on one element, in the
    numerically stable form TensorFlow evaluates. *)
Definition sigmoid_cross_entropy_with_logits (logit label : R) : R :=
  Rmax logit 0 - logit * label + ln (1 + exp (- Rabs logit)).

(** [tf.reduce_sum(t, axis=[1, 2, 3])] for one example of shape [(h, w, c)]. *)
Definition sum_example (e : image) : R :=
  sum_list (map (fun row => sum_list (map sum_list row)) e).

(** [compute_loss(model, x)]; [eps] is the draw made by [reparameterize]. *)
Definition compute_loss (model : CVAE) (eps : matrix) (x : list image) : R :=
  let '(mean, logvar) := encode model x in
  let z := reparameterize eps mean logvar in
  let x_logit := decode model z in
  let cross_entropy :=
    zip_with (zip_with (zip_with (zip_with sigmoid_cross_entropy_with_logits)))
             x_logit x in
  let logpx_z := map (fun ce => - sum_example ce) cross_entropy in
  let logpz := log_normal_pdf z (Scalar 0) (Scalar 0) in
  let logqz_x := log_normal_pdf z (Tensor mean) (Tensor logvar) in
  - reduce_mean (zip_with Rminus (zip_with Rplus logpx_z logpz) logqz_x).

(** Reading of the spec: the closed-form density of [N(mean, exp logvar)]. *)
Definition normal_pdf (x mean logvar : R) : R :=
  exp (- (x - mean) ^ 2 / (2 * exp logvar)) / sqrt (2 * PI * exp logvar).

(** [sum_{k < n} f k]. *)
Fixpoint sum_range (n : nat) (f : nat -> R) : R :=
  match n with
  | O => 0
  | S n' => sum_range n' f + f n'
  end.

Definition flatten (e : image) : list R := List.concat (map (@List.concat R) e).

(** Reading of the spec for [compute_loss]: per example [b] of the batch,
    [logpx_z] is minus the sigmoid cross-entropy summed over all pixels,
    [logpz] and [logqz_x] the Gaussian log-densities of [z] summed over the
    latent coordinates; the loss is minus their batch mean. *)
Definition spec_loss (model : CVAE) (eps : matrix) (x : list image) : R :=
  let '(mean, logvar) := encode model x in
  let z := reparameterize eps mean logvar in
  let x_logit := decode model z in
  let B := List.length x in
  let zi b j := nth j (nth b z []) 0 in
  let L b := List.length (nth b z []) in
  let logpx_z b :=
    - sum_list (zip_with sigmoid_cross_entropy_with_logits
                         (flatten (nth b x_logit [])) (flatten (nth b x []))) in
  let logpz b := sum_range (L b) (fun j => ln (normal_pdf (zi b j) 0 0)) in
  let logqz_x b :=
    sum_range (L b) (fun j => ln (normal_pdf (zi b j) (nth j (nth b mean []) 0)
                                             (nth j (nth b logvar []) 0))) in
  - (sum_range B (fun b => logpx_z b + logpz b - logqz_x b) / INR B).

(** Shape of one example: the lengths along its row and column axes. *)
Definition image_shape (e : image) : list (list nat) := map (map (@List.length R)) e.

(** The shape agreements [compute_loss] relies on: the encoder keeps the
    batch and yields an even number of values per example, the noise takes
    the shape of [mean], and the logits have the shape of [x]. *)
Definition loss_well_shaped (model : CVAE) (eps : matrix) (x : list image) : Prop :=
  let '(mean, logvar) := encode model x in
  let z := reparameterize eps mean logvar in
  List.length mean = List.length x /\ same_rows eps mean /\ same_rows logvar mean /\
  map image_shape (decode model z) = map image_shape x.

(** [tf.sigmoid]. *)
Definition sigmoid (x : R) : R := / (1 + exp (- x)).

(** [CVAE.decode(z, apply_sigmoid)]; [decode] above is the default
    [apply_sigmoid=False]. *)
Definition decode_with (model : CVAE) (z : matrix) (apply_sigmoid : bool) : list image :=
  let logits := generative_net model z in
  if apply_sigmoid then map (map (map (map sigmoid))) logits else logits.

(** [CVAE.sample(eps)]; [normal r c] is the draw
    [tf.random.normal(shape=(r, c))]. *)
Definition sample (model : CVAE) (latent_dim : nat) (normal : nat -> nat -> matrix)
    (eps : option matrix) : list image :=
  let eps := match eps with None => normal 100%nat latent_dim | Some e => e end in
  decode_with model eps true.

(** [predictions[i, :, :, 0]]. *)
Definition channel0 (p : image) : list (list R) := map (map (fun px => nth 0 px 0)) p.

(** The loop [for i in range(predictions.shape[0])]: [plt.subplot(4, 4, i + 1)]
    then [plt.imshow] of the first channel.  [subplot] raises [ValueError]
    for an index above [4 * 4]; [inr num] is that error at index [num]. *)
Fixpoint subplots (i : nat) (predictions : list image) : list (nat * list (list R)) + nat :=
  match predictions with
  | [] => inl []
  | p :: ps =>
      if Nat.leb (i + 1) (4 * 4) then
        match subplots (S i) ps with
        | inl panels => inl ((i + 1, channel0 p) :: panels)
        | inr num => inr num
        end
      else inr (i + 1)
  end%nat.

(** Outcome of [generate_and_save_images]: the file [plt.savefig] writes
    with the panels of the figure, or the [ValueError] of [subplot]. *)
Inductive figure_outcome :=
| SavedFigure (file : string) (panels : list (nat * list (list R)))
| SubplotValueError (num : nat).

Definition generate_and_save_images (model : CVAE) (latent_dim : nat)
    (normal : nat -> nat -> matrix) (epoch : nat) (test_input : option matrix)
    : figure_outcome :=
  let predictions := sample model latent_dim normal test_input in
  match subplots 0 predictions with
  | inl panels => SavedFigure (Training.image_file epoch) panels
  | inr num => SubplotValueError num
  end.

End Vae.

(* ================================================================== *)
(** * Properties *)

(* ------------------------------------------------------------------ *)
(** ** Frame selection *)
Module GifFacts.
Import Gif.

Example selected_12 : selected_indices 12 = [0; 1; 2; 4; 6; 8; 11]%nat.
Proof. reflexivity. Qed.

Example draw_gif_10 : draw_gif (seq 0 10) = Written [0; 1; 2; 4; 6; 8; 9]%nat.
Proof. reflexivity. Qed.


(** After the loop, [filename] is bound to the last file, if any. *)
Lemma select_loop_bound {A : Type} (fs : list A) :
  forall i last b (d : A),
  snd (select_loop i last b fs) = match fs with [] => b | _ => Some (List.last fs d) end.
Proof.
  induction fs as [|f fs IH]; intros i last b d; [reflexivity|].
  simpl. destruct (last <? round_frame i).
  - destruct (select_loop (S i) (round_frame i) (Some f) fs) as [w b'] eqn:E.
    simpl. specialize (IH (S i) (round_frame i) (Some f) d). rewrite E in IH.
    simpl in IH. rewrite IH. destruct fs; reflexivity.
  - rewrite (IH _ _ _ d). destruct fs; reflexivity.
Qed.

(** The selected indices of [i .. i+n-1] lie in that range, are strictly
    increasing, and their rounded keys exceed [last] and increase strictly. *)
Lemma select_loop_seq (n : nat) :
  forall i last b,
  let sel := fst (select_loop i last b (seq i n)) in
  Forall (fun k => (i <= k < i + n)%nat /\ last < round_frame k) sel /\
  Sorted (fun a c => round_frame a < round_frame c) sel /\
  Sorted lt sel.
Proof.
  induction n as [|n IH]; intros i last b; simpl.
  - repeat split; constructor.
  - destruct (last <? round_frame i) eqn:Hlt.
    + destruct (select_loop (S i) (round_frame i) (Some i) (seq (S i) n)) as [w b'] eqn:E.
      simpl. destruct (IH (S i) (round_frame i) (Some i)) as [HF [HS HL]].
      rewrite E in HF, HS, HL. simpl in HF, HS, HL.
      apply Z.ltb_lt in Hlt.
      repeat split.
      * constructor; [split; [lia|exact Hlt]|].
        eapply Forall_impl; [|exact HF]. intros k [Hk Hr]. split; [lia|lia].
      * constructor; [exact HS|].
        destruct w as [|k w]; constructor. inversion HF; subst. tauto.
      * constructor; [exact HL|].
        destruct w as [|k w]; constructor. inversion HF; subst. lia.
    + destruct (IH (S i) last (Some i)) as [HF [HS HL]].
      apply Z.ltb_ge in Hlt.
      repeat split; try assumption.
      eapply Forall_impl; [|exact HF]. intros k [Hk Hr]. split; [lia|exact Hr].
Qed.

(** When the last index is selected, it ends the selection. *)
Lemma select_loop_last_in (n : nat) :
  forall i last b,
  In (i + n - 1)%nat (fst (select_loop i last b (seq i n))) ->
  exists pre, fst (select_loop i last b (seq i n)) = pre ++ [(i + n - 1)%nat] /\
              ~ In (i + n - 1)%nat pre.
Proof.
  induction n as [|n IH]; intros i last b Hin; [contradiction|].
  change (seq i (S n)) with (i :: seq (S i) n) in *.
  cbn [select_loop] in *.
  destruct n as [|m].
  - replace (i + 1 - 1)%nat with i in * by lia.
    destruct (last <? round_frame i); simpl in *.
    + exists []. split; [reflexivity|auto].
    + contradiction.
  - replace (i + S (S m) - 1)%nat with (S i + S m - 1)%nat in * by lia.
    destruct (last <? round_frame i) eqn:Hlt.
    + destruct (select_loop (S i) (round_frame i) (Some i) (seq (S i) (S m)))
        as [w b'] eqn:E.
      cbn [fst] in *. destruct Hin as [Heq|Hin]; [lia|].
      specialize (IH (S i) (round_frame i) (Some i)). rewrite E in IH.
      cbn [fst] in IH.
      destruct (IH Hin) as [pre [Hw Hpre]].
      exists (i :: pre). rewrite Hw. split; [reflexivity|].
      simpl. intros [H|H]; [lia|contradiction].
    + apply IH. exact Hin.
Qed.

(** On the files [0 .. N-1], [draw_gif] writes the selection followed by
    the last file. *)
Lemma draw_gif_seq (N : nat) (HN : (1 <= N)%nat) :
  draw_gif (seq 0 N) = Written (selected_indices N ++ [(N - 1)%nat]).
Proof.
  unfold draw_gif, selected_indices.
  pose proof (select_loop_bound (seq 0 N) 0 (-1) None 0%nat) as Hb.
  destruct (select_loop 0 (-1) None (seq 0 N)) as [w b] eqn:E.
  cbn [snd fst] in *. subst b.
  destruct N as [|N]; [lia|].
  assert (Hl : List.last (seq 0 (S N)) 0%nat = N)
    by (rewrite seq_S, last_last; reflexivity).
  rewrite Hl. replace (S N - 1)%nat with N by lia. reflexivity.
Qed.

(** C5: on the files [0 .. N-1] (N >= 1) the frames selected by the loop
    have strictly increasing rounded keys [round(2*sqrt(i))] (a frame whose
    key does not exceed the last selected key is skipped), and the
    animation always contains, and ends with, the last frame [N-1]. *)
Theorem draw_gif_selection (N : nat) (HN : (1 <= N)%nat) :
  Sorted (fun a c => round_frame a < round_frame c) (selected_indices N) /\
  exists frames,
    draw_gif (seq 0 N) = Written frames /\
    frames = selected_indices N ++ [(N - 1)%nat] /\
    In (N - 1)%nat frames /\ List.last frames 0%nat = (N - 1)%nat.
Proof.
  split.
  - destruct (select_loop_seq N 0 (-1) None) as [_ [HS _]]. exact HS.
  - exists (selected_indices N ++ [(N - 1)%nat]).
    split; [apply draw_gif_seq; exact HN|].
    split; [reflexivity|].
    split; [apply in_or_app; right; left; reflexivity|].
    apply last_last.
Qed.

Lemma draw_gif_selection_witness :
  (1 <= 12)%nat /\
  Sorted (fun a c => round_frame a < round_frame c) (selected_indices 12) /\
  exists frames,
    draw_gif (seq 0 12) = Written frames /\
    frames = selected_indices 12 ++ [(12 - 1)%nat] /\
    In (12 - 1)%nat frames /\ List.last frames 0%nat = (12 - 1)%nat.
Proof. split; [lia|]. apply (draw_gif_selection 12). lia. Defined.

(** C8: with no matching file the loop never binds [filename], and the
    post-loop [imageio.imread(filename)] raises instead of producing an
    animation. *)
Theorem draw_gif_no_files (A : Type) :
  draw_gif (@nil A) = UnboundLocalError.
Proof. reflexivity. Qed.

(** C9: the last frame is appended after the loop unconditionally: when
    the loop has already selected index [N-1], the animation ends with that
    frame twice in a row (and holds it nowhere else); otherwise it holds it
    exactly once. *)
Theorem draw_gif_last_frame_multiplicity (N : nat) (HN : (1 <= N)%nat) :
  (In (N - 1)%nat (selected_indices N) ->
     exists pre, draw_gif (seq 0 N) = Written (pre ++ [(N - 1)%nat; (N - 1)%nat]) /\
                 ~ In (N - 1)%nat pre) /\
  (~ In (N - 1)%nat (selected_indices N) ->
     exists frames, draw_gif (seq 0 N) = Written frames /\
                    count_occ Nat.eq_dec frames (N - 1)%nat = 1%nat).
Proof.
  rewrite (draw_gif_seq N HN). split.
  - intros Hin.
    destruct (select_loop_last_in N 0 (-1) None Hin) as [pre [Hw Hpre]].
    exists pre. unfold selected_indices. rewrite Hw, <- app_assoc.
    split; [reflexivity|exact Hpre].
  - intros Hnin. eexists. split; [reflexivity|].
    rewrite count_occ_app, (proj1 (count_occ_not_In _ _ _) Hnin).
    simpl. destruct (Nat.eq_dec (N - 1) (N - 1)); [reflexivity|contradiction].
Qed.

Lemma draw_gif_last_frame_multiplicity_witness :
  (1 <= 12)%nat /\
  ((In (12 - 1)%nat (selected_indices 12) ->
     exists pre, draw_gif (seq 0 12) = Written (pre ++ [(12 - 1)%nat; (12 - 1)%nat]) /\
                 ~ In (12 - 1)%nat pre) /\
   (~ In (12 - 1)%nat (selected_indices 12) ->
     exists frames, draw_gif (seq 0 12) = Written frames /\
                    count_occ Nat.eq_dec frames (12 - 1)%nat = 1%nat)).
Proof. split; [lia|]. apply (draw_gif_last_frame_multiplicity 12). lia. Defined.

(** The key [round(2*sqrt(i))] of file [i >= 1] is the [k] with
    [k (k - 1) < 4 i <= k (k + 1)]. *)
Lemma round_frame_spec (i : nat) :
  (1 <= i)%nat ->
  round_frame i * (round_frame i - 1) < 4 * Z.of_nat i <= round_frame i * (round_frame i + 1) /\
  2 <= round_frame i.
Proof.
  intros Hi. unfold round_frame.
  assert (Hn : 4 <= 4 * Z.of_nat i) by lia.
  pose proof (Z.sqrt_spec (4 * Z.of_nat i) ltac:(lia)) as [Hlo Hhi].
  pose proof (Z.sqrt_nonneg (4 * Z.of_nat i)) as Hs.
  set (n := 4 * Z.of_nat i) in *. set (s := Z.sqrt n) in *.
  unfold Z.succ in Hhi.
  destruct (Z.ltb_spec (s * s + s) n) as [H|H].
  - assert (1 <= s) by nia. split; [split|]; nia.
  - assert (2 <= s) by nia. split; [split|]; nia.
Qed.

(** From one file to the next (past the first) the key grows by 0 or 1. *)
Lemma round_frame_step (i : nat) :
  (1 <= i)%nat -> round_frame i <= round_frame (S i) <= round_frame i + 1.
Proof.
  intros Hi.
  destruct (round_frame_spec i Hi) as [[H1 H2] H3].
  destruct (round_frame_spec (S i) ltac:(lia)) as [[H4 H5] H6].
  rewrite Nat2Z.inj_succ in H4, H5.
  set (k := round_frame i) in *. set (k' := round_frame (S i)) in *.
  split.
  - destruct (Z.le_gt_cases k k') as [Hle|Hgt]; [exact Hle|].
    assert (k' * (k' + 1) <= (k - 1) * k) by (apply Z.mul_le_mono_nonneg; lia).
    nia.
  - destruct (Z.le_gt_cases k' (k + 1)) as [Hle|Hgt]; [exact Hle|].
    assert ((k + 2) * (k + 1) <= k' * (k' - 1)) by (apply Z.mul_le_mono_nonneg; lia).
    nia.
Qed.

(** From file [i >= 2] on, with the key of file [i - 1] as the last one
    selected, the loop selects one file per increment of the key. *)
Lemma select_loop_count (n : nat) :
  forall i b, (2 <= i)%nat ->
  Z.of_nat (List.length (fst (select_loop i (round_frame (i - 1)) b (seq i n)))) =
  round_frame (i + n - 1) - round_frame (i - 1).
Proof.
  induction n as [|n IH]; intros i b Hi.
  - simpl. replace (i + 0 - 1)%nat with (i - 1)%nat by lia. lia.
  - change (seq i (S n)) with (i :: seq (S i) n). cbn [select_loop].
    pose proof (round_frame_step (i - 1) ltac:(lia)) as Hst.
    replace (S (i - 1)) with i in Hst by lia.
    specialize (IH (S i)). replace (S i - 1)%nat with i in IH by lia.
    replace (S i + n - 1)%nat with (i + S n - 1)%nat in IH by lia.
    destruct (Z.ltb_spec (round_frame (i - 1)) (round_frame i)) as [Hlt|Hge].
    + destruct (select_loop (S i) (round_frame i) (Some i) (seq (S i) n)) as [w b'] eqn:E.
      specialize (IH (Some i) ltac:(lia)). rewrite E in IH. cbn [fst] in *.
      cbn [List.length]. rewrite Nat2Z.inj_succ, IH. lia.
    + assert (Heq : round_frame (i - 1) = round_frame i) by lia.
      rewrite Heq. rewrite (IH (Some i) ltac:(lia)). reflexivity.
Qed.

(** For [N >= 2] files the animation has [round(2*sqrt(N-1)) + 1] frames:
    one per value the key takes, and the final frame appended again. *)
Theorem draw_gif_frame_count (N : nat) (HN : (2 <= N)%nat) :
  exists frames, draw_gif (seq 0 N) = Written frames /\
  Z.of_nat (List.length frames) = round_frame (N - 1) + 1.
Proof.
  exists (selected_indices N ++ [(N - 1)%nat]).
  split; [apply draw_gif_seq; lia|].
  rewrite length_app, Nat2Z.inj_add. cbn [List.length].
  destruct N as [|[|m]]; [lia|lia|].
  unfold selected_indices.
  change (seq 0 (S (S m))) with (0%nat :: 1%nat :: seq 2 m).
  cbn [select_loop].
  change (round_frame 0) with 0. change (round_frame 1) with 2.
  cbn [Z.ltb Z.compare].
  pose proof (select_loop_count m 2 (Some 1%nat) ltac:(lia)) as Hc.
  change (round_frame (2 - 1)) with 2 in Hc.
  destruct (select_loop 2 2 (Some 1%nat) (seq 2 m)) as [w b] eqn:E.
  cbn [fst List.length] in *.
  replace (2 + m - 1)%nat with (S (S m) - 1)%nat in Hc by lia.
  lia.
Qed.

Lemma draw_gif_frame_count_witness :
  (2 <= 12)%nat /\
  exists frames, draw_gif (seq 0 12) = Written frames /\
  Z.of_nat (List.length frames) = round_frame (12 - 1) + 1.
Proof. split; [lia|]. apply (draw_gif_frame_count 12). lia. Defined.

End GifFacts.

(* ------------------------------------------------------------------ *)
(** ** Data preparation *)
Module DataFacts.
Import Data.
Local Open Scope Q_scope.

Lemma remove_at_incl {A : Type} (l : list A) :
  forall k x r, remove_at k l = Some (x, r) -> In x l /\ incl r l.
Proof.
  induction l as [|y l IH]; intros k x r H; [destruct k; discriminate|].
  destruct k as [|k]; simpl in H.
  - injection H as <- <-. split; [left; reflexivity|intros z Hz; right; exact Hz].
  - destruct (remove_at k l) as [[x' r']|] eqn:E; [|discriminate].
    injection H as <- <-. destruct (IH k x' r' E) as [Hx Hr].
    split; [right; exact Hx|].
    intros z [Hz|Hz]; [left; exact Hz|right; apply Hr; exact Hz].
Qed.

Lemma shuffle_incl {A : Type} (ds : list nat) :
  forall l : list A, incl (shuffle ds l) l.
Proof.
  induction ds as [|d ds IH]; intros l; simpl; [apply incl_refl|].
  destruct (remove_at _ l) as [[x rest]|] eqn:E; [|apply incl_refl].
  destruct (remove_at_incl l _ x rest E) as [Hx Hr].
  intros z [Hz|Hz]; [subst; exact Hx|apply Hr, IH; exact Hz].
Qed.

Lemma batch_fuel_incl {A : Type} (fuel n : nat) :
  forall (l b : list A), In b (batch_fuel fuel n l) -> incl b l.
Proof.
  induction fuel as [|fuel IH]; intros l b Hb; simpl in Hb; [contradiction|].
  destruct l as [|y l]; [contradiction|].
  destruct Hb as [Hb|Hb].
  - subst b. intros z Hz. rewrite <- (firstn_skipn n (y :: l)).
    apply in_or_app. left. exact Hz.
  - intros z Hz. apply (IH _ _ Hb) in Hz. rewrite <- (firstn_skipn n (y :: l)).
    apply in_or_app. right. exact Hz.
Qed.

Lemma map_pixels_map_pixels (f g : Q -> Q) (imgs : list image) :
  map_pixels g (map_pixels f imgs) = map_pixels (fun v => g (f v)) imgs.
Proof.
  unfold map_pixels. rewrite map_map. apply map_ext. intros img.
  rewrite map_map. apply map_ext. intros row.
  rewrite map_map. apply map_ext. intros px.
  rewrite map_map. reflexivity.
Qed.

(** The two mask assignments act as one inclusive threshold at [0.5]. *)
Lemma binarize_pixelwise (imgs : list image) :
  binarize imgs =
  map_pixels (fun v => if Qle_bool (1 # 2) v then 1 else 0) imgs.
Proof.
  unfold binarize. rewrite map_pixels_map_pixels.
  unfold map_pixels. repeat (apply map_ext; intro).
  destruct (Qle_bool (1 # 2) _) eqn:E; unfold lt_half.
  - reflexivity.
  - rewrite E. reflexivity.
Qed.

Lemma map_pixels_in (f : Q -> Q) (imgs : list image) img row px v :
  In img (map_pixels f imgs) -> In row img -> In px row -> In v px ->
  exists u, v = f u.
Proof.
  unfold map_pixels. intros Himg Hrow Hpx Hv.
  apply in_map_iff in Himg as [img0 [<- _]].
  apply in_map_iff in Hrow as [row0 [<- _]].
  apply in_map_iff in Hpx as [px0 [<- _]].
  apply in_map_iff in Hv as [u [<- _]].
  exists u. reflexivity.
Qed.

(** C4: every pixel of every image in every mini-batch of the train and
    test streams returned by [prepare_data] is exactly [0.] or [1.]; so is
    every pixel of the binarized arrays before batching. *)
Theorem prepare_data_binary (train_raw test_raw : list raw_image)
    (train_draws test_draws : list nat) :
  (forall imgs img row px v,
     (imgs = prepare_images train_raw \/ imgs = prepare_images test_raw) ->
     In img imgs -> In row img -> In px row -> In v px -> v = 0 \/ v = 1) /\
  (forall b img row px v,
     (In b (fst (prepare_data train_raw test_raw train_draws test_draws)) \/
      In b (snd (prepare_data train_raw test_raw train_draws test_draws))) ->
     In img b -> In row img -> In px row -> In v px -> v = 0 \/ v = 1).
Proof.
  assert (Hbin : forall raw img row px v,
            In img (prepare_images raw) -> In row img -> In px row -> In v px ->
            v = 0 \/ v = 1).
  { intros raw img row px v Himg Hrow Hpx Hv.
    unfold prepare_images in Himg. rewrite binarize_pixelwise in Himg.
    destruct (map_pixels_in _ _ _ _ _ _ Himg Hrow Hpx Hv) as [u ->].
    destruct (Qle_bool (1 # 2) u); [right|left]; reflexivity. }
  split.
  - intros imgs img row px v [->| ->]; apply Hbin.
  - intros b img row px v Hb Himg. unfold prepare_data, batch in Hb. simpl in Hb.
    destruct Hb as [Hb|Hb];
      apply (batch_fuel_incl _ _ _ _ Hb), shuffle_incl in Himg; apply (Hbin _ _ _ _ _ Himg).
Qed.

(** C10: the binarization threshold is inclusive on the high side: every
    value [>= 0.5] (also exactly [0.5]) becomes [1.], every value [< 0.5]
    becomes [0.], pixel by pixel over the whole array. *)
Theorem binarize_threshold_inclusive (imgs : list image) :
  binarize imgs = map_pixels (fun v => if Qle_bool (1 # 2) v then 1 else 0) imgs /\
  (forall v, 1 # 2 <= v -> binarize [[[[v]]]] = [[[[1]]]]) /\
  (forall v, v < 1 # 2 -> binarize [[[[v]]]] = [[[[0]]]]).
Proof.
  split; [apply binarize_pixelwise|]. split.
  - intros v Hv. rewrite binarize_pixelwise. simpl.
    apply Qle_bool_iff in Hv. rewrite Hv. reflexivity.
  - intros v Hv. rewrite binarize_pixelwise. simpl.
    destruct (Qle_bool (1 # 2) v) eqn:E; [|reflexivity].
    apply Qle_bool_iff in E. exfalso. apply (Qlt_not_le _ _ Hv E).
Qed.

Example binarize_exact_half : binarize [[[[1 # 2]]]] = [[[[1]]]].
Proof. reflexivity. Qed.

Example prepare_127_128 :
  prepare_images [[[127; 128]]%Z] = [[[[0]; [1]]]].
Proof. reflexivity. Qed.

Lemma remove_at_perm {A : Type} (l : list A) :
  forall k x r, remove_at k l = Some (x, r) -> Permutation l (x :: r).
Proof.
  induction l as [|y l IH]; intros k x r H; [destruct k; discriminate|].
  destruct k as [|k]; simpl in H.
  - injection H as <- <-. reflexivity.
  - destruct (remove_at k l) as [[x' r']|] eqn:E; [|discriminate].
    injection H as <- <-. specialize (IH k x' r' E).
    eapply perm_trans; [apply perm_skip; exact IH|]. apply perm_swap.
Qed.

Lemma shuffle_perm {A : Type} (ds : list nat) :
  forall l : list A, Permutation (shuffle ds l) l.
Proof.
  induction ds as [|d ds IH]; intros l; simpl; [reflexivity|].
  destruct (remove_at _ l) as [[x rest]|] eqn:E; [|reflexivity].
  apply remove_at_perm in E. rewrite E. apply perm_skip, IH.
Qed.

Lemma batch_fuel_concat {A : Type} (n : nat) (Hn : (0 < n)%nat) (fuel : nat) :
  forall l : list A, (List.length l <= fuel)%nat -> List.concat (batch_fuel fuel n l) = l.
Proof.
  induction fuel as [|fuel IH]; intros l Hl.
  - destruct l; [reflexivity|simpl in Hl; lia].
  - destruct l as [|y l]; [reflexivity|].
    cbn [batch_fuel List.concat]. rewrite IH.
    + apply firstn_skipn.
    + rewrite length_skipn. cbn [List.length] in *. lia.
Qed.

Lemma batch_fuel_sizes {A : Type} (n : nat) (Hn : (0 < n)%nat) (fuel : nat) :
  forall l : list A, (List.length l <= fuel)%nat ->
  Forall (fun b => (0 < List.length b <= n)%nat) (batch_fuel fuel n l) /\
  (forall pre b post, batch_fuel fuel n l = pre ++ b :: post -> post <> [] ->
     List.length b = n) /\
  List.length (batch_fuel fuel n l) = Nat.div (List.length l + n - 1) n.
Proof.
  induction fuel as [|fuel IH]; intros l Hl.
  - destruct l; [|simpl in Hl; lia]. simpl.
    split; [constructor|]. split.
    + intros pre b post H. destruct pre; discriminate.
    + symmetry. apply Nat.div_small. lia.
  - destruct l as [|y l].
    + simpl. split; [constructor|]. split.
      * intros pre b post H. destruct pre; discriminate.
      * symmetry. apply Nat.div_small. lia.
    + cbn [batch_fuel]. set (l0 := y :: l) in *.
      assert (Hsk : (List.length (skipn n l0) <= fuel)%nat)
        by (rewrite length_skipn; unfold l0 in *; cbn [List.length] in *; lia).
      destruct (IH (skipn n l0) Hsk) as [HF [HP HC]].
      assert (Hfirst : List.length (firstn n l0) = Nat.min n (List.length l0))
        by apply length_firstn.
      assert (Hl0 : (0 < List.length l0)%nat) by (unfold l0; cbn [List.length]; lia).
      split; [|split].
      * constructor; [lia|exact HF].
      * intros [|p pre] b post H Hpost.
        -- cbn [app] in H. injection H as Hb Hr. subst b.
           destruct (Nat.le_gt_cases (List.length l0) n) as [Hle|Hgt]; [|lia].
           exfalso. apply Hpost. subst post.
           rewrite skipn_all2 by exact Hle. destruct fuel; reflexivity.
        -- cbn [app] in H. injection H as Hp Hr. eapply HP; [exact Hr|exact Hpost].
      * cbn [List.length]. rewrite HC, length_skipn.
        replace (List.length l0 + n - 1)%nat with ((List.length l0 - 1) + 1 * n)%nat by lia.
        rewrite Nat.div_add by lia.
        destruct (Nat.le_gt_cases n (List.length l0)) as [Hle|Hgt].
        -- replace (List.length l0 - n + n - 1)%nat with (List.length l0 - 1)%nat by lia. lia.
        -- rewrite (Nat.div_small (List.length l0 - n + n - 1)) by lia.
           rewrite (Nat.div_small (List.length l0 - 1)) by lia. lia.
Qed.

(** The train and test streams of [prepare_data] hold every prepared image
    exactly once: their batches, put end to end, are a permutation of the
    binarized arrays. *)
Theorem prepare_data_streams_permutation (train_raw test_raw : list raw_image)
    (train_draws test_draws : list nat) :
  Permutation (List.concat (fst (prepare_data train_raw test_raw train_draws test_draws)))
              (prepare_images train_raw) /\
  Permutation (List.concat (snd (prepare_data train_raw test_raw train_draws test_draws)))
              (prepare_images test_raw).
Proof.
  unfold prepare_data, batch. cbn [fst snd].
  split; rewrite batch_fuel_concat by (unfold BATCH_SIZE; lia); apply shuffle_perm.
Qed.

(** Every mini-batch of either stream holds between 1 and 128 images, all but
    the last exactly 128, and a stream of [n] images has [ceil(n / 128)]
    batches. *)
Theorem prepare_data_batch_sizes (train_raw test_raw : list raw_image)
    (train_draws test_draws : list nat) :
  let ok (raw : list raw_image) (stream : list (list image)) :=
    Forall (fun b => (0 < List.length b <= 128)%nat) stream /\
    (forall pre b post, stream = pre ++ b :: post -> post <> [] -> List.length b = 128%nat) /\
    List.length stream = Nat.div (List.length raw + 127) 128 in
  ok train_raw (fst (prepare_data train_raw test_raw train_draws test_draws)) /\
  ok test_raw (snd (prepare_data train_raw test_raw train_draws test_draws)).
Proof.
  intros ok.
  assert (Hlen : forall r draws,
             List.length (shuffle draws (prepare_images r)) = List.length r).
  { intros r draws. rewrite (Permutation_length (shuffle_perm draws _)).
    unfold prepare_images, binarize, normalize, reshape, map_pixels.
    rewrite !length_map. reflexivity. }
  assert (Hgen : forall r draws, ok r (batch BATCH_SIZE (shuffle draws (prepare_images r)))).
  { intros r draws. unfold ok, batch.
    destruct (batch_fuel_sizes BATCH_SIZE ltac:(unfold BATCH_SIZE; lia)
                (List.length (shuffle draws (prepare_images r)))
                (shuffle draws (prepare_images r)) (le_n _)) as [HF [HP HC]].
    unfold BATCH_SIZE in *.
    split; [exact HF|]. split; [exact HP|]. rewrite HC, Hlen. f_equal; lia. }
  split; apply Hgen.
Qed.

(** On raw [uint8] intensities the preparation is a threshold at 128:
    intensities [128 .. 255] become [1.], [0 .. 127] become [0.], each in a
    one-channel pixel. *)
Theorem prepare_images_threshold_128 (raw : list raw_image) :
  prepare_images raw = map (map (map (fun p => [if Z.leb 128 p then 1 else 0]))) raw.
Proof.
  unfold prepare_images. rewrite binarize_pixelwise.
  unfold normalize, reshape. rewrite !map_pixels_map_pixels.
  unfold map_pixels. rewrite map_map. apply map_ext. intros img.
  rewrite map_map. apply map_ext. intros row.
  rewrite map_map. apply map_ext. intros p. simpl.
  unfold Qle_bool. simpl. rewrite Z.mul_1_r.
  destruct (Z.leb_spec 255 (p * 2)) as [H|H];
    destruct (Z.leb_spec 128 p) as [H'|H']; try reflexivity; lia.
Qed.

End DataFacts.

(* ------------------------------------------------------------------ *)
(** ** Shapes *)
Module ShapeFacts.
Import Shapes.

Lemma shape_eqb_refl (s : shape) : shape_eqb s s = true.
Proof. induction s as [|a s IH]; simpl; [reflexivity|]. rewrite Nat.eqb_refl. exact IH. Qed.

Lemma even_double (n : nat) : Nat.even (n + n) = true.
Proof. replace (n + n)%nat with (2 * n)%nat by lia. apply Nat.even_mul. Qed.

Lemma div_double (n : nat) : Nat.div (n + n) 2 = n.
Proof. replace (n + n)%nat with (n * 2)%nat by lia. apply Nat.div_mul. lia. Qed.

(** C6: for a batch of [b] images of shape [(28, 28, 1)] the encoder's
    final dense layer yields [2 * latent_dim] values per example, split
    into a mean and a log-variance of [latent_dim] each; the decoder takes
    [latent_dim] inputs and yields [(28, 28, 1)]; the batch size [b] is
    kept through encode, reparameterize and decode. *)
Theorem cvae_shapes (b latent_dim : nat) :
  sequential (inference_net latent_dim) [b; 28; 28; 1]%nat = Some [b; 2 * latent_dim]%nat /\
  encode latent_dim [b; 28; 28; 1]%nat = Some ([b; latent_dim], [b; latent_dim]) /\
  reparameterize [b; latent_dim] [b; latent_dim] = Some [b; latent_dim] /\
  decode latent_dim [b; latent_dim] = Some [b; 28; 28; 1]%nat /\
  forward latent_dim [b; 28; 28; 1]%nat = Some [b; 28; 28; 1]%nat.
Proof.
  assert (Henc : sequential (inference_net latent_dim) [b; 28; 28; 1]%nat
                 = Some [b; latent_dim + latent_dim]%nat) by reflexivity.
  assert (Hdec : decode latent_dim [b; latent_dim] = Some [b; 28; 28; 1]%nat).
  { unfold decode, generative_net. simpl. rewrite Nat.eqb_refl. reflexivity. }
  assert (Hsplit : encode latent_dim [b; 28; 28; 1]%nat
                   = Some ([b; latent_dim], [b; latent_dim])).
  { unfold encode. rewrite Henc. unfold split2.
    rewrite even_double, div_double. reflexivity. }
  assert (Hrep : reparameterize [b; latent_dim] [b; latent_dim] = Some [b; latent_dim]).
  { unfold reparameterize. rewrite shape_eqb_refl. reflexivity. }
  split; [rewrite Henc; do 3 f_equal; lia|].
  split; [exact Hsplit|]. split; [exact Hrep|]. split; [exact Hdec|].
  unfold forward. rewrite Hsplit, Hrep. exact Hdec.
Qed.





End ShapeFacts.

(* ------------------------------------------------------------------ *)
(** ** The epoch loop *)
Module TrainingFacts.
Import Training.
Local Open Scope R_scope.

Example image_file_0 : image_file 0 = "image_at_epoch_0000.png"%string.
Proof. reflexivity. Qed.

Example image_file_90 : image_file 90 = "image_at_epoch_0090.png"%string.
Proof. reflexivity. Qed.

Section Loop.
Variable Model Latents : Type.
Variable train_epoch : nat -> Model -> Model.
Variable test_losses : Model -> list R.
Variable model0 : Model.
Variable rv : Latents.

Local Abbreviation run := (run Model Latents train_epoch test_losses rv).
Local Abbreviation step := (fun m k => train_epoch k m).

Lemma run_cons (e : nat) (es : list nat) (m : Model) :
  run (e :: es) m =
  Trained e ::
    ((if Nat.eqb (Nat.modulo e 10) 0
      then [Evaluated e (- mean (test_losses (train_epoch e m)));
            Saved e (image_file e) rv]
      else []) ++ run es (train_epoch e m)).
Proof. reflexivity. Qed.

Lemma run_trained (n : nat) :
  forall s m, trained_epochs Latents (run (seq s n) m) = seq s n.
Proof.
  induction n as [|n IH]; intros s m; [reflexivity|].
  change (seq s (S n)) with (s :: seq (S s) n). rewrite run_cons.
  unfold trained_epochs in *. cbn [flat_map app]. f_equal.
  rewrite flat_map_app, IH.
  destruct (Nat.eqb (Nat.modulo s 10) 0); reflexivity.
Qed.

Lemma run_evaluated (n : nat) :
  forall s m e v,
  In (Evaluated e v) (run (seq s n) m) <->
  ((s <= e < s + n)%nat /\ Nat.modulo e 10 = 0%nat /\
   v = - mean (test_losses (fold_left step (seq s (S e - s)) m))).
Proof.
  induction n as [|n IH]; intros s m e v.
  - simpl. split; [contradiction|lia].
  - change (seq s (S n)) with (s :: seq (S s) n). rewrite run_cons.
    cbn [In]. split.
    + intros [H|H].
      * discriminate.
      * apply in_app_or in H as [H|H].
        -- destruct (Nat.eqb (Nat.modulo s 10) 0) eqn:E; [|contradiction].
           apply Nat.eqb_eq in E.
           destruct H as [H|[H|[]]]; [|discriminate].
           injection H as <- <-. split; [lia|]. split; [exact E|].
           replace (S s - s)%nat with 1%nat by lia. reflexivity.
        -- apply IH in H as [Hr [Hm Hv]]. split; [lia|]. split; [exact Hm|].
           rewrite Hv. replace (S e - s)%nat with (S (S e - S s)) by lia.
           reflexivity.
    + intros [Hr [Hm Hv]]. right. apply in_or_app.
      destruct (Nat.eq_dec e s) as [->|Hne].
      * left. apply Nat.eqb_eq in Hm. rewrite Hm. left.
        rewrite Hv. replace (S s - s)%nat with 1%nat by lia. reflexivity.
      * right. apply IH. split; [lia|]. split; [exact Hm|].
        rewrite Hv. replace (S e - s)%nat with (S (S e - S s)) by lia.
        reflexivity.
Qed.

Lemma run_saved (n : nat) :
  forall s m e f z,
  In (Saved e f z) (run (seq s n) m) <->
  ((s <= e < s + n)%nat /\ Nat.modulo e 10 = 0%nat /\ f = image_file e /\ z = rv).
Proof.
  induction n as [|n IH]; intros s m e f z.
  - simpl. split; [contradiction|lia].
  - change (seq s (S n)) with (s :: seq (S s) n). rewrite run_cons.
    cbn [In]. split.
    + intros [H|H].
      * discriminate.
      * apply in_app_or in H as [H|H].
        -- destruct (Nat.eqb (Nat.modulo s 10) 0) eqn:E; [|contradiction].
           apply Nat.eqb_eq in E.
           destruct H as [H|[H|[]]]; [discriminate|].
           injection H as <- <- <-. split; [lia|]. auto.
        -- apply IH in H as [Hr Hrest]. split; [lia|exact Hrest].
    + intros [Hr [Hm [Hf Hz]]]. right. apply in_or_app.
      destruct (Nat.eq_dec e s) as [->|Hne].
      * left. apply Nat.eqb_eq in Hm. rewrite Hm. right. left.
        subst. reflexivity.
      * right. apply IH. split; [lia|]. auto.
Qed.

(** C7: the loop trains exactly the epochs [0 .. 99], in order, and stops;
    the held-out evaluation (its ELBO estimate the negated mean test loss
    of the model trained so far) and the image file (named by the epoch,
    decoding the same pre-drawn latent vectors) happen at epoch [e < 100]
    exactly when [e] is a multiple of 10, epoch 0 included, and at no
    other epoch. *)
Theorem main_schedule :
  trained_epochs Latents (main Model Latents train_epoch test_losses model0 rv)
    = seq 0 100 /\
  (forall e, (e < 100)%nat ->
     ((exists v, In (Evaluated e v) (main Model Latents train_epoch test_losses model0 rv))
        <-> Nat.modulo e 10 = 0%nat) /\
     ((exists f z, In (Saved e f z) (main Model Latents train_epoch test_losses model0 rv))
        <-> Nat.modulo e 10 = 0%nat)) /\
  (forall e v, In (Evaluated e v) (main Model Latents train_epoch test_losses model0 rv) ->
     (e < 100)%nat /\
     v = - mean (test_losses (model_after Model train_epoch model0 e))) /\
  (forall e f z, In (Saved e f z) (main Model Latents train_epoch test_losses model0 rv) ->
     (e < 100)%nat /\ f = image_file e /\ z = rv).
Proof.
  unfold main, epochs. split; [apply run_trained|]. split; [|split].
  - intros e He. split.
    + split.
      * intros [v Hv]. apply run_evaluated in Hv. tauto.
      * intros Hm. eexists. apply run_evaluated. split; [lia|]. split; [exact Hm|].
        reflexivity.
    + split.
      * intros [f [z Hs]]. apply run_saved in Hs. tauto.
      * intros Hm. exists (image_file e), rv. apply run_saved. split; [lia|]. auto.
  - intros e v Hv. apply run_evaluated in Hv as [Hr [_ Hv]]. split; [lia|].
    rewrite Hv. unfold model_after. rewrite Nat.sub_0_r. reflexivity.
  - intros e f z Hs. apply run_saved in Hs as [Hr [_ Hrest]]. split; [lia|exact Hrest].
Qed.

Lemma run_saved_files (n : nat) :
  forall s m, saved_files Latents (run (seq s n) m) =
              map image_file (filter (fun e => Nat.eqb (Nat.modulo e 10) 0) (seq s n)).
Proof.
  induction n as [|n IH]; intros s m; [reflexivity|].
  change (seq s (S n)) with (s :: seq (S s) n). rewrite run_cons.
  unfold saved_files in *. cbn [flat_map app filter].
  rewrite flat_map_app, IH.
  destruct (Nat.eqb (Nat.modulo s 10) 0); reflexivity.
Qed.

Lemma main_saved_files_eq :
  saved_files Latents (main Model Latents train_epoch test_losses model0 rv) =
  map image_file [0; 10; 20; 30; 40; 50; 60; 70; 80; 90]%nat.
Proof. unfold main, epochs. rewrite run_saved_files. reflexivity. Qed.

(** The image files the loop writes are the ten names
    [image_at_epoch_0000.png .. image_at_epoch_0090.png], all distinct, and
    the order in which they are written is already the code-point order
    that [sorted] gives them. *)
Theorem main_saved_files :
  let fs := saved_files Latents (main Model Latents train_epoch test_losses model0 rv) in
  fs = map image_file [0; 10; 20; 30; 40; 50; 60; 70; 80; 90]%nat /\
  sorted_names fs = fs /\ NoDup fs.
Proof.
  intros fs. unfold fs. rewrite main_saved_files_eq.
  split; [reflexivity|]. split; [vm_compute; reflexivity|].
  vm_compute. repeat constructor; simpl; intuition discriminate.
Qed.

(** Composition of the loop and [draw_gif]: with the ten images of the
    loop as the only [image*.png] files, the GIF gets the frames of epochs
    0, 10, 20, 40, 60, 80 and 90 (the last file appended after the loop). *)
Theorem main_then_draw_gif :
  Gif.draw_gif (sorted_names (saved_files Latents
                  (main Model Latents train_epoch test_losses model0 rv))) =
  Gif.Written (map image_file [0; 10; 20; 40; 60; 80; 90]%nat).
Proof. rewrite main_saved_files_eq. vm_compute. reflexivity. Qed.

End Loop.

End TrainingFacts.

(* ------------------------------------------------------------------ *)
(** ** The numeric core *)
Module VaeFacts.
Import Vae.
Local Open Scope R_scope.

Lemma length_zip_with {A B C : Type} (f : A -> B -> C) (a : list A) :
  forall b, List.length (zip_with f a b) = Nat.min (List.length a) (List.length b).
Proof. induction a as [|x a IH]; intros [|y b]; simpl; auto. Qed.

Lemma nth_zip_with {A B C : Type} (f : A -> B -> C) (a : list A) :
  forall b i da db dc, (i < List.length a)%nat -> (i < List.length b)%nat ->
  nth i (zip_with f a b) dc = f (nth i a da) (nth i b db).
Proof.
  induction a as [|x a IH]; intros [|y b] i da db dc Ha Hb; simpl in *; try lia.
  destruct i as [|i]; [reflexivity|]. apply IH; lia.
Qed.

Lemma nth_map_lt {A B : Type} (f : A -> B) (l : list A) (d : A) (db : B) (n : nat) :
  (n < List.length l)%nat -> nth n (map f l) db = f (nth n l d).
Proof.
  intros H. rewrite (nth_indep _ db (f d)) by (rewrite length_map; exact H).
  apply map_nth.
Qed.


Lemma same_rows_length (a b : matrix) :
  same_rows a b -> List.length a = List.length b.
Proof.
  intros H. unfold same_rows in H.
  rewrite <- (length_map (@List.length R) a), <- (length_map (@List.length R) b), H.
  reflexivity.
Qed.

Lemma same_rows_nth (a b : matrix) (i : nat) :
  same_rows a b -> List.length (nth i a []) = List.length (nth i b []).
Proof.
  intros H. unfold same_rows in H.
  change 0%nat with (@List.length R []).
  rewrite <- !(map_nth (@List.length R)), H. reflexivity.
Qed.

Lemma ew2_same_rows (f : R -> R -> R) (a : matrix) :
  forall b, same_rows a b -> same_rows (ew2 f a b) a.
Proof.
  unfold same_rows, ew2.
  induction a as [|r a IH]; intros [|s b] H; simpl in *; try discriminate; [reflexivity|].
  injection H as Hrs Hab. rewrite length_zip_with, Hrs, Nat.min_id.
  f_equal. apply IH. exact Hab.
Qed.

Lemma nth_ew2 (f : R -> R -> R) (a b : matrix) (i j : nat) :
  same_rows a b -> (i < List.length a)%nat -> (j < List.length (nth i a []))%nat ->
  nth j (nth i (ew2 f a b) []) 0 = f (nth j (nth i a []) 0) (nth j (nth i b []) 0).
Proof.
  intros H Hi Hj. unfold ew2.
  pose proof (same_rows_length a b H) as Hl.
  pose proof (same_rows_nth a b i H) as Hr.
  rewrite (nth_zip_with _ a b i [] [] []) by lia.
  apply nth_zip_with; lia.
Qed.

Lemma same_rows_sym (a b : matrix) : same_rows a b -> same_rows b a.
Proof. unfold same_rows. auto. Qed.

Lemma same_rows_trans (a b c : matrix) :
  same_rows a b -> same_rows b c -> same_rows a c.
Proof. unfold same_rows. congruence. Qed.

Lemma same_rows_map (f : R -> R) (a : matrix) : same_rows (map (map f) a) a.
Proof.
  unfold same_rows. rewrite map_map. apply map_ext. intros r. apply length_map.
Qed.

Lemma same_rows_map_refl (a : matrix) : same_rows a a.
Proof. reflexivity. Qed.

(** The sample of [reparameterize] has the rows of [mean], and each
    entry is [eps * exp (logvar * 0.5) + mean]. *)
Lemma reparameterize_spec (eps mean logvar : matrix) :
  same_rows eps mean -> same_rows logvar mean ->
  same_rows (reparameterize eps mean logvar) mean /\
  forall b j, (b < List.length mean)%nat -> (j < List.length (nth b mean []))%nat ->
  nth j (nth b (reparameterize eps mean logvar) []) 0 =
  nth j (nth b eps []) 0 * exp (0.5 * nth j (nth b logvar []) 0) + nth j (nth b mean []) 0.
Proof.
  intros He Hl.
  set (ex := map (map (fun lv => exp (lv * 0.5))) logvar).
  assert (Hx : same_rows ex mean)
    by (eapply same_rows_trans; [apply same_rows_map|exact Hl]).
  assert (Hp : same_rows (ew2 Rmult eps ex) mean).
  { eapply same_rows_trans; [apply ew2_same_rows|exact He].
    eapply same_rows_trans; [exact He|apply same_rows_sym; exact Hx]. }
  split.
  - unfold reparameterize. fold ex.
    eapply same_rows_trans; [apply ew2_same_rows; exact Hp|exact Hp].
  - intros b j Hb Hj. unfold reparameterize. fold ex.
    pose proof (same_rows_length _ _ He) as HeL.
    pose proof (same_rows_nth _ _ b He) as HeR.
    pose proof (same_rows_length _ _ Hp) as HpL.
    pose proof (same_rows_nth _ _ b Hp) as HpR.
    rewrite nth_ew2 by (auto; lia).
    rewrite nth_ew2 by (try (eapply same_rows_trans; [exact He|apply same_rows_sym; exact Hx]); lia).
    unfold ex.
    pose proof (same_rows_length _ _ Hl) as HlL.
    pose proof (same_rows_nth _ _ b Hl) as HlR.
    rewrite (nth_map_lt _ logvar [] [] b) by lia.
    rewrite (nth_map_lt _ _ 0 0 j) by lia.
    rewrite (Rmult_comm _ 0.5). reflexivity.
Qed.

(** C2: with the noise draw [eps] fixed (of the shape of [mean], as
    [tf.random.normal(shape=mean.shape)] draws it), [reparameterize] is the
    deterministic map [eps * exp (0.5 * logvar) + mean], elementwise, and its
    result has the shape of [mean]. *)
Theorem reparameterize_deterministic (eps mean logvar : matrix)
    (Heps : same_rows eps mean) (Hlogvar : same_rows logvar mean) :
  map (@List.length R) (reparameterize eps mean logvar) = map (@List.length R) mean /\
  forall b j, (b < List.length mean)%nat -> (j < List.length (nth b mean []))%nat ->
  nth j (nth b (reparameterize eps mean logvar) []) 0 =
  nth j (nth b eps []) 0 * exp (0.5 * nth j (nth b logvar []) 0) + nth j (nth b mean []) 0.
Proof. apply reparameterize_spec; assumption. Qed.

Lemma reparameterize_deterministic_witness :
  same_rows [[1%R; 2%R]] [[0%R; 3%R]] /\ same_rows [[0%R; 0%R]] [[0%R; 3%R]] /\
  (map (@List.length R) (reparameterize [[1%R; 2%R]] [[0%R; 3%R]] [[0%R; 0%R]]) =
     map (@List.length R) [[0%R; 3%R]] /\
   forall b j, (b < List.length [[0%R; 3%R]])%nat -> (j < List.length (nth b [[0%R; 3%R]] []))%nat ->
   nth j (nth b (reparameterize [[1%R; 2%R]] [[0%R; 3%R]] [[0%R; 0%R]]) []) 0 =
   nth j (nth b [[1%R; 2%R]] []) 0 * exp (0.5 * nth j (nth b [[0%R; 0%R]] []) 0)
     + nth j (nth b [[0%R; 3%R]] []) 0).
Proof.
  split; [reflexivity|]. split; [reflexivity|].
  apply reparameterize_deterministic; reflexivity.
Defined.

Lemma sum_range_shift (n : nat) (f : nat -> R) :
  sum_range (S n) f = f 0%nat + sum_range n (fun j => f (S j)).
Proof. induction n as [|n IH]; simpl in *; [ring|]. rewrite IH. ring. Qed.

Lemma sum_list_range (l : list R) :
  sum_list l = sum_range (List.length l) (fun j => nth j l 0).
Proof.
  induction l as [|x l IH]; [reflexivity|].
  cbn [List.length]. rewrite sum_range_shift.
  change (sum_list (x :: l)) with (x + sum_list l). rewrite IH. reflexivity.
Qed.

Lemma sum_range_ext (n : nat) (f g : nat -> R) :
  (forall j, (j < n)%nat -> f j = g j) -> sum_range n f = sum_range n g.
Proof.
  induction n as [|n IH]; intros H; simpl; [reflexivity|].
  rewrite IH by (intros; apply H; lia). rewrite H by lia. reflexivity.
Qed.

Lemma broadcast_same_rows (o : operand) (s : matrix) :
  fits o s -> same_rows (broadcast o s) s.
Proof. destruct o; simpl; [intros _; apply same_rows_map|auto]. Qed.

Lemma nth_broadcast (o : operand) (s : matrix) (b j : nat) :
  fits o s -> (b < List.length s)%nat -> (j < List.length (nth b s []))%nat ->
  nth j (nth b (broadcast o s) []) 0 = operand_at o b j.
Proof.
  destruct o as [r|m]; simpl; intros _ Hb Hj; [|reflexivity].
  rewrite (nth_map_lt _ s [] [] b) by exact Hb.
  rewrite (nth_map_lt _ _ 0 0 j) by exact Hj. reflexivity.
Qed.

(** The summand of [log_normal_pdf] is the log of the Gaussian density. *)
Lemma ln_normal_pdf (x m lv : R) :
  ln (normal_pdf x m lv) = -0.5 * ((x - m) ^ 2 * exp (- lv) + lv + ln (2 * PI)).
Proof.
  unfold normal_pdf.
  pose proof (exp_pos lv) as HE. pose proof PI_RGT_0 as HPI.
  assert (H2 : 0 < 2 * PI * exp lv) by (apply Rmult_lt_0_compat; lra).
  assert (Hs : 0 < sqrt (2 * PI * exp lv)) by (apply sqrt_lt_R0; exact H2).
  assert (Hdiv : forall a c, 0 < a -> 0 < c -> ln (a / c) = ln a - ln c).
  { intros a c Ha Hc. unfold Rdiv.
    rewrite ln_mult, ln_Rinv by (try apply Rinv_0_lt_compat; assumption). ring. }
  rewrite Hdiv by (try apply exp_pos; exact Hs).
  rewrite ln_exp.
  rewrite <- (Rpower_sqrt _ H2), ln_Rpower.
  rewrite ln_mult by (try apply exp_pos; lra).
  rewrite ln_exp, exp_Ropp.
  replace (-0.5) with (- / 2) by lra. field. apply Rgt_not_eq. exact HE.
Qed.

Lemma log_normal_pdf_length (s : matrix) (mean logvar : operand) :
  fits mean s -> fits logvar s ->
  same_rows (ew2 (fun d lv => -0.5 * (d ^ 2 * exp (- lv) + lv + ln (2 * PI)))
                 (ew2 Rminus s (broadcast mean s)) (broadcast logvar s)) s.
Proof.
  intros Hm Hl.
  assert (Hd : same_rows (ew2 Rminus s (broadcast mean s)) s).
  { eapply same_rows_trans; [apply ew2_same_rows|apply same_rows_map_refl].
    apply same_rows_sym, broadcast_same_rows, Hm. }
  eapply same_rows_trans; [apply ew2_same_rows|exact Hd].
  eapply same_rows_trans; [exact Hd|]. apply same_rows_sym, broadcast_same_rows, Hl.
Qed.

(** Row [b] of [log_normal_pdf] sums the per-coordinate terms. *)
Lemma log_normal_pdf_nth (s : matrix) (mean logvar : operand) (b : nat) :
  fits mean s -> fits logvar s -> (b < List.length s)%nat ->
  nth b (log_normal_pdf s mean logvar) 0 =
  sum_range (List.length (nth b s []))
    (fun j => -0.5 * ((nth j (nth b s []) 0 - operand_at mean b j) ^ 2
                       * exp (- operand_at logvar b j)
                      + operand_at logvar b j + ln (2 * PI))).
Proof.
  intros Hm Hl Hb. unfold log_normal_pdf, reduce_sum_axis1.
  pose proof (log_normal_pdf_length s mean logvar Hm Hl) as HL.
  rewrite (nth_map_lt _ _ [] 0 b) by (rewrite (same_rows_length _ _ HL); exact Hb).
  rewrite sum_list_range, (same_rows_nth _ _ b HL).
  apply sum_range_ext. intros j Hj.
  assert (Hd : same_rows (ew2 Rminus s (broadcast mean s)) s).
  { eapply same_rows_trans; [apply ew2_same_rows|apply same_rows_map_refl].
    apply same_rows_sym, broadcast_same_rows, Hm. }
  rewrite nth_ew2.
  - rewrite nth_ew2.
    + rewrite !nth_broadcast by assumption. reflexivity.
    + apply same_rows_sym, broadcast_same_rows, Hm.
    + exact Hb.
    + exact Hj.
  - eapply same_rows_trans; [exact Hd|]. apply same_rows_sym, broadcast_same_rows, Hl.
  - rewrite (same_rows_length _ _ Hd). exact Hb.
  - rewrite (same_rows_nth _ _ b Hd). exact Hj.
Qed.

(** C3: [log_normal_pdf] is the closed form: on one coordinate
    [log_normal_pdf(0, 0., 0.) = -0.5 * log(2 pi)]; in general row [b] is
    the sum over the reduction axis of
    [-0.5 * ((sample - mean)^2 * exp(-logvar) + logvar + log(2 pi))], which
    is the sum of the logs of the Gaussian densities. *)
Theorem log_normal_pdf_closed_form (sample : matrix) (mean logvar : operand)
    (Hmean : fits mean sample) (Hlogvar : fits logvar sample) :
  log_normal_pdf [[0]] (Scalar 0) (Scalar 0) = [-0.5 * ln (2 * PI)] /\
  List.length (log_normal_pdf sample mean logvar) = List.length sample /\
  forall b, (b < List.length sample)%nat ->
    nth b (log_normal_pdf sample mean logvar) 0 =
    sum_range (List.length (nth b sample []))
      (fun j => -0.5 * ((nth j (nth b sample []) 0 - operand_at mean b j) ^ 2
                         * exp (- operand_at logvar b j)
                        + operand_at logvar b j + ln (2 * PI))) /\
    nth b (log_normal_pdf sample mean logvar) 0 =
    sum_range (List.length (nth b sample []))
      (fun j => ln (normal_pdf (nth j (nth b sample []) 0)
                               (operand_at mean b j) (operand_at logvar b j))).
Proof.
  split.
  - unfold log_normal_pdf, reduce_sum_axis1, ew2. simpl. unfold sum_list. simpl.
    f_equal. ring.
  - split.
    + unfold log_normal_pdf, reduce_sum_axis1. rewrite length_map.
      apply same_rows_length, log_normal_pdf_length; assumption.
    + intros b Hb. rewrite log_normal_pdf_nth by assumption. split; [reflexivity|].
      apply sum_range_ext. intros j _. rewrite ln_normal_pdf. reflexivity.
Qed.

Lemma log_normal_pdf_closed_form_witness :
  fits (Scalar 0) [[0%R]] /\ fits (Scalar 0) [[0%R]] /\
  (log_normal_pdf [[0]] (Scalar 0) (Scalar 0) = [-0.5 * ln (2 * PI)] /\
  List.length (log_normal_pdf [[0%R]] (Scalar 0) (Scalar 0)) = List.length [[0%R]] /\
  forall b, (b < List.length [[0%R]])%nat ->
    nth b (log_normal_pdf [[0%R]] (Scalar 0) (Scalar 0)) 0 =
    sum_range (List.length (nth b [[0%R]] []))
      (fun j => -0.5 * ((nth j (nth b [[0%R]] []) 0 - operand_at (Scalar 0) b j) ^ 2
                         * exp (- operand_at (Scalar 0) b j)
                        + operand_at (Scalar 0) b j + ln (2 * PI))) /\
    nth b (log_normal_pdf [[0%R]] (Scalar 0) (Scalar 0)) 0 =
    sum_range (List.length (nth b [[0%R]] []))
      (fun j => ln (normal_pdf (nth j (nth b [[0%R]] []) 0)
                               (operand_at (Scalar 0) b j) (operand_at (Scalar 0) b j)))).
Proof.
  split; [exact I|]. split; [exact I|].
  apply log_normal_pdf_closed_form; exact I.
Defined.

Lemma sum_list_app (l1 l2 : list R) :
  sum_list (l1 ++ l2) = sum_list l1 + sum_list l2.
Proof. induction l1 as [|a l1 IH]; simpl; [ring|]. unfold sum_list in *. rewrite IH. ring. Qed.

Lemma sum_list_concat (ls : list (list R)) :
  sum_list (List.concat ls) = sum_list (map sum_list ls).
Proof.
  induction ls as [|l ls IH]; [reflexivity|].
  simpl. rewrite sum_list_app, IH. reflexivity.
Qed.

Lemma sum_example_flatten (e : image) : sum_example e = sum_list (flatten e).
Proof.
  unfold sum_example, flatten. rewrite sum_list_concat, map_map.
  f_equal. apply map_ext. intros row. rewrite sum_list_concat. reflexivity.
Qed.

Lemma zip_with_app {A B C : Type} (f : A -> B -> C) (a1 a2 : list A) (c1 c2 : list B) :
  List.length a1 = List.length c1 ->
  zip_with f (a1 ++ a2) (c1 ++ c2) = zip_with f a1 c1 ++ zip_with f a2 c2.
Proof.
  revert c1. induction a1 as [|x a1 IH]; intros [|y c1] H; simpl in *; try lia; [reflexivity|].
  f_equal. apply IH. lia.
Qed.

Lemma concat_zip_with {A B C : Type} (f : A -> B -> C) (a : list (list A)) :
  forall (c : list (list B)), map (@List.length A) a = map (@List.length B) c ->
  List.concat (zip_with (zip_with f) a c) = zip_with f (List.concat a) (List.concat c).
Proof.
  induction a as [|r a IH]; intros [|t c] H; simpl in *; try discriminate; [reflexivity|].
  injection H as Hrt Hac. rewrite zip_with_app by exact Hrt. rewrite IH by exact Hac.
  reflexivity.
Qed.

Lemma length_concat_shape {A : Type} (r : list (list A)) :
  List.length (List.concat r) = list_sum (map (@List.length A) r).
Proof. induction r as [|x r IH]; simpl; [reflexivity|]. rewrite length_app, IH. reflexivity. Qed.

Lemma flatten_zip_with (f : R -> R -> R) (a c : image) :
  image_shape a = image_shape c ->
  flatten (zip_with (zip_with (zip_with f)) a c) = zip_with f (flatten a) (flatten c).
Proof.
  unfold image_shape, flatten. intros H.
  assert (Hrows : map (@List.concat R) (zip_with (zip_with (zip_with f)) a c)
                  = zip_with (zip_with f) (map (@List.concat R) a) (map (@List.concat R) c)).
  { revert c H. induction a as [|r a IH]; intros [|t c] H; simpl in *; try discriminate;
      [reflexivity|].
    injection H as Hrt Hac. rewrite concat_zip_with by exact Hrt. rewrite IH by exact Hac.
    reflexivity. }
  rewrite Hrows. apply concat_zip_with.
  clear Hrows. rewrite !map_map. revert c H.
  induction a as [|r a IH]; intros [|t c] H; simpl in *; try discriminate; [reflexivity|].
  injection H as Hrt Hac. rewrite !length_concat_shape, Hrt. f_equal. apply IH. exact Hac.
Qed.

(** Length goals where [image] and its unfolding both occur. *)
Ltac len_lia := unfold image in *; lia.

(** C1: under the shapes the script runs with, [compute_loss] is minus the
    batch mean of [logpx_z + logpz - logqz_x]: [logpx_z] minus the sigmoid
    cross-entropy of the decoder's logits against [x] summed over all pixel
    axes, [logpz] the log-density of [z] under [N(0, exp 0)] and [logqz_x]
    its log-density under the encoder's [(mean, logvar)], both summed over
    the latent coordinates. *)
Theorem compute_loss_negative_elbo (model : CVAE) (eps : matrix) (x : list image)
    (Hshape : loss_well_shaped model eps x) :
  compute_loss model eps x = spec_loss model eps x.
Proof.
  unfold loss_well_shaped, compute_loss, spec_loss in *.
  destruct (encode model x) as [mean logvar] eqn:Henc.
  destruct Hshape as [HB [He [Hl Hdec]]].
  set (z := reparameterize eps mean logvar) in *.
  set (lg := decode model z) in *.
  destruct (reparameterize_spec eps mean logvar He Hl) as [Hz _]. fold z in Hz.
  assert (Hlg : List.length lg = List.length x).
  { rewrite <- (length_map image_shape lg), Hdec, length_map. reflexivity. }
  assert (HzB : List.length z = List.length x)
    by (rewrite (same_rows_length _ _ Hz); exact HB).
  assert (Hfm : fits (Tensor mean) z) by (simpl; apply same_rows_sym; exact Hz).
  assert (Hfl : fits (Tensor logvar) z)
    by (simpl; eapply same_rows_trans; [exact Hl|apply same_rows_sym; exact Hz]).
  set (ce := zip_with (zip_with (zip_with (zip_with sigmoid_cross_entropy_with_logits))) lg x).
  set (lpx := map (fun c => - sum_example c) ce).
  set (lpz := log_normal_pdf z (Scalar 0) (Scalar 0)).
  set (lqz := log_normal_pdf z (Tensor mean) (Tensor logvar)).
  assert (Hce : List.length ce = List.length x)
    by (unfold ce, image in *; rewrite length_zip_with; lia).
  assert (Hpx : List.length lpx = List.length x) by (unfold lpx; rewrite length_map; exact Hce).
  assert (Hpz : List.length lpz = List.length x).
  { unfold lpz, log_normal_pdf, reduce_sum_axis1. rewrite length_map.
    rewrite (same_rows_length _ _ (log_normal_pdf_length z (Scalar 0) (Scalar 0) I I)). exact HzB. }
  assert (Hqz : List.length lqz = List.length x).
  { unfold lqz, log_normal_pdf, reduce_sum_axis1. rewrite length_map.
    rewrite (same_rows_length _ _ (log_normal_pdf_length _ _ _ Hfm Hfl)). exact HzB. }
  set (L := zip_with Rminus (zip_with Rplus lpx lpz) lqz).
  assert (HL : List.length L = List.length x)
    by (unfold L; rewrite !length_zip_with, Hpx, Hpz, Hqz; lia).
  unfold reduce_mean. rewrite sum_list_range, HL. f_equal. f_equal.
  apply sum_range_ext. intros b Hb.
  unfold L. rewrite (nth_zip_with _ _ _ _ 0 0) by (rewrite ?length_zip_with; lia).
  rewrite (nth_zip_with _ _ _ _ 0 0) by lia.
  f_equal; [f_equal|].
  - unfold lpx.
    rewrite (nth_map_lt (fun c : image => - sum_example c) ce [] 0 b) by len_lia.
    unfold ce. rewrite (nth_zip_with _ _ _ _ [] []) by len_lia.
    rewrite sum_example_flatten, flatten_zip_with; [reflexivity|].
    pose proof (f_equal (fun l => nth b l (image_shape [])) Hdec) as Hn.
    cbv beta in Hn. rewrite !map_nth in Hn. exact Hn.
  - unfold lpz. rewrite log_normal_pdf_nth by (exact I || lia).
    apply sum_range_ext. intros j _. rewrite ln_normal_pdf. reflexivity.
  - unfold lqz. rewrite log_normal_pdf_nth by (assumption || lia).
    apply sum_range_ext. intros j _. rewrite ln_normal_pdf. reflexivity.
Qed.

Lemma compute_loss_negative_elbo_witness :
  loss_well_shaped
    {| inference_net := fun x => map (fun _ => [0; 0]) x;
       generative_net := fun z => map (fun _ => [[[0]]]) z |}
    [[1]] [[[[1]]]] /\
  compute_loss
    {| inference_net := fun x => map (fun _ => [0; 0]) x;
       generative_net := fun z => map (fun _ => [[[0]]]) z |}
    [[1]] [[[[1]]]] =
  spec_loss
    {| inference_net := fun x => map (fun _ => [0; 0]) x;
       generative_net := fun z => map (fun _ => [[[0]]]) z |}
    [[1]] [[[[1]]]].
Proof.
  assert (H : loss_well_shaped
    {| inference_net := fun x => map (fun _ => [0; 0]) x;
       generative_net := fun z => map (fun _ => [[[0]]]) z |}
    [[1]] [[[[1]]]]).
  { unfold loss_well_shaped. simpl. repeat split; reflexivity. }
  split; [exact H|]. apply (compute_loss_negative_elbo _ _ _ H).
Defined.








Lemma subplots_spec (predictions : list image) :
  forall i, (i <= 16)%nat ->
  subplots i predictions =
  if Nat.leb (i + List.length predictions) 16
  then inl (combine (seq (S i) (List.length predictions)) (map channel0 predictions))
  else inr 17%nat.
Proof.
  induction predictions as [|p ps IH]; intros i Hi.
  - cbn [subplots List.length]. rewrite Nat.add_0_r.
    apply Nat.leb_le in Hi. rewrite Hi. reflexivity.
  - cbn [subplots List.length].
    destruct (Nat.leb_spec (i + 1) (4 * 4)) as [H|H].
    + rewrite (IH (S i)) by lia.
      replace (S i + List.length ps)%nat with (i + S (List.length ps))%nat by lia.
      destruct (Nat.leb (i + S (List.length ps)) 16); [|reflexivity].
      rewrite Nat.add_1_r. reflexivity.
    + replace i with 16%nat by lia. reflexivity.
Qed.


Lemma map_fst_combine {A B : Type} (l1 : list A) :
  forall l2 : list B, List.length l1 = List.length l2 -> map fst (combine l1 l2) = l1.
Proof.
  induction l1 as [|a l1 IH]; intros [|b l2] H; try discriminate; [reflexivity|].
  cbn. f_equal. apply IH. injection H as H. exact H.
Qed.

Lemma sample_length (model : CVAE) (latent_dim : nat) (normal : nat -> nat -> matrix)
    (eps : option matrix) :
  List.length (sample model latent_dim normal eps) =
  List.length (generative_net model
                 (match eps with None => normal 100%nat latent_dim | Some e => e end)).
Proof. unfold sample, decode_with. apply length_map. Qed.

(** [generate_and_save_images] places prediction [i] in panel [i + 1] of
    the 4 x 4 grid and saves [image_at_epoch_{epoch:04d}.png] when there
    are at most 16 predictions; with more, [plt.subplot(4, 4, 17)] raises
    [ValueError] before anything is saved. *)
Theorem generate_and_save_images_subplots (model : CVAE) (latent_dim : nat)
    (normal : nat -> nat -> matrix) (epoch : nat) (test_input : option matrix) :
  let predictions := sample model latent_dim normal test_input in
  ((List.length predictions <= 16)%nat ->
   generate_and_save_images model latent_dim normal epoch test_input =
   SavedFigure (Training.image_file epoch)
     (combine (seq 1 (List.length predictions)) (map channel0 predictions))) /\
  ((16 < List.length predictions)%nat ->
   generate_and_save_images model latent_dim normal epoch test_input =
   SubplotValueError 17).
Proof.
  intros predictions. unfold generate_and_save_images. fold predictions.
  rewrite (subplots_spec predictions 0) by lia. cbn [Nat.add].
  split; intros H.
  - apply Nat.leb_le in H. rewrite H. reflexivity.
  - apply Nat.leb_gt in H. rewrite H. reflexivity.
Qed.

(** With a decoder that keeps the batch size, the call of the loop (the
    16 pre-drawn latent vectors) saves its figure, while the default
    [sample()], which draws 100 latent vectors, makes
    [generate_and_save_images(model, epoch, None)] raise at subplot 17. *)
Theorem generate_and_save_images_batch (model : CVAE) (latent_dim : nat)
    (normal : nat -> nat -> matrix) (epoch : nat)
    (Hnet : forall z, List.length (generative_net model z) = List.length z)
    (Hdraw : List.length (normal 100%nat latent_dim) = 100%nat) :
  generate_and_save_images model latent_dim normal epoch None = SubplotValueError 17 /\
  (forall eps, (List.length eps <= 16)%nat ->
     exists panels,
       generate_and_save_images model latent_dim normal epoch (Some eps) =
       SavedFigure (Training.image_file epoch) panels /\
       map fst panels = seq 1 (List.length eps)).
Proof.
  split.
  - apply (generate_and_save_images_subplots model latent_dim normal epoch None).
    rewrite sample_length, Hnet, Hdraw. lia.
  - intros eps Heps.
    assert (Hl : List.length (sample model latent_dim normal (Some eps)) = List.length eps).
    { rewrite sample_length, Hnet. reflexivity. }
    eexists. split.
    + apply (generate_and_save_images_subplots model latent_dim normal epoch (Some eps)).
      lia.
    + rewrite Hl. apply map_fst_combine. rewrite length_seq, length_map, Hl. reflexivity.
Qed.

Lemma generate_and_save_images_batch_witness :
  (forall z, List.length (generative_net
     {| inference_net := fun x => map (fun _ => []) x;
        generative_net := fun z => map (fun _ => [[[0]]]) z |} z) = List.length z) /\
  List.length ((fun r c => repeat (repeat 0 c) r) 100%nat 1%nat) = 100%nat /\
  (generate_and_save_images
     {| inference_net := fun x => map (fun _ => []) x;
        generative_net := fun z => map (fun _ => [[[0]]]) z |}
     1 (fun r c => repeat (repeat 0 c) r) 0 None = SubplotValueError 17 /\
   (forall eps, (List.length eps <= 16)%nat ->
     exists panels,
       generate_and_save_images
         {| inference_net := fun x => map (fun _ => []) x;
            generative_net := fun z => map (fun _ => [[[0]]]) z |}
         1 (fun r c => repeat (repeat 0 c) r) 0 (Some eps) =
       SavedFigure (Training.image_file 0) panels /\
       map fst panels = seq 1 (List.length eps))).
Proof.
  assert (Hnet : forall z, List.length (generative_net
     {| inference_net := fun x => map (fun _ => []) x;
        generative_net := fun z => map (fun _ => [[[0]]]) z |} z) = List.length z).
  { intros z. simpl. apply length_map. }
  assert (Hdraw : List.length ((fun r c => repeat (repeat 0 c) r) 100%nat 1%nat) = 100%nat).
  { reflexivity. }
  split; [exact Hnet|]. split; [exact Hdraw|].
  apply (generate_and_save_images_batch _ 1 (fun r c => repeat (repeat 0 c) r) 0 Hnet Hdraw).
Defined.

End VaeFacts.
